(** * Remora tail-risk tracker: the recompute pipeline of [app.py]

    The development embeds the three Dash callbacks of [app.py]
    ([sync_preset_to_slider], [update_interval], [update_live_price]) together
    with the module-level configuration they read, and proves the properties
    of the buffer calculator, of the Monte Carlo simulator and of the error
    handling of one recompute tick.

    Reading of the Python values:
    - a Python [int] is a [Z];
    - a finite [float] / [numpy.float64] is the real number it denotes, and
      NaN is [None] of [option R] (module [Np]); binary64 rounding and the two
      infinities are not represented, so the arithmetic below is the exact
      arithmetic of the expressions of the source;
    - a [str] is a [string] (UTF-8 bytes), and the value of a dropdown is a
      string or [None];
    - an exception is the text [str(e)] that the handler prints;
    - the global generator behind [np.random.normal] is the sequence of the
      draws it has still to deliver. *)

From Stdlib Require Import Reals Lra Lia List String ZArith Bool DecimalString.
Import ListNotations.

Set Implicit Arguments.
Set Warnings "-register-all".

(** ** numpy scalars *)

Module Np.

Local Open Scope R_scope.

  (** A float64 value: [Some x] is the finite value [x], [None] is NaN. *)
Definition float : Type := option R.

Definition nan : float := None.

Definition isnan (a : float) : bool :=
    match a with
    | Some _ => false
    | None => true
    end.

Definition lift2 (f : R -> R -> R) (a b : float) : float :=
    match a, b with
    | Some x, Some y => Some (f x y)
    | _, _ => nan
    end.

Definition add : float -> float -> float := lift2 Rplus.
Definition sub : float -> float -> float := lift2 Rminus.
Definition mul : float -> float -> float := lift2 Rmult.

  (** [a / b]: a zero divisor leaves the finite values (numpy answers with an
      infinity or NaN and a warning, never with an exception). *)
Definition div (a b : float) : float :=
    match a, b with
    | Some x, Some y => if Req_dec_T y 0 then nan else Some (x / y)
    | _, _ => nan
    end.

  (** [a ** n] for a literal exponent [n]. *)
Definition power (a : float) (n : nat) : float :=
    match a with
    | Some x => Some (x ^ n)
    | None => nan
    end.

  (** [np.log]: finite exactly on the positive values. *)
Definition log (a : float) : float :=
    match a with
    | Some x => if Rlt_dec 0 x then Some (ln x) else nan
    | None => nan
    end.

  (** [np.exp] *)
Definition exp (a : float) : float :=
    match a with
    | Some x => Some (Rtrigo_def.exp x)
    | None => nan
    end.

  (** [np.sqrt]: NaN below zero. *)
Definition sqrt (a : float) : float :=
    match a with
    | Some x => if Rle_dec 0 x then Some (R_sqrt.sqrt x) else nan
    | None => nan
    end.

End Np.

Declare Scope np_scope.
Delimit Scope np_scope with np.
Infix "+" := Np.add : np_scope.
Infix "-" := Np.sub : np_scope.
Infix "*" := Np.mul : np_scope.
Infix "/" := Np.div : np_scope.

(** ** pandas Series of floats *)

Module Series.

Local Open Scope R_scope.

  (** [s.shift(1)]: every value moves one place down, the first place is NaN
      and the last value falls off. *)
Definition shift1 (s : list Np.float) : list Np.float :=
    match s with
    | [] => []
    | _ :: _ => Np.nan :: removelast s
    end.

  (** Element-wise binary operation of two Series over the same index. *)
Fixpoint zip_with (f : Np.float -> Np.float -> Np.float)
           (s t : list Np.float) : list Np.float :=
    match s, t with
    | a :: s', b :: t' => f a b :: zip_with f s' t'
    | _, _ => []
    end.

  (** [s.dropna()]: the values that are not NaN, in order. *)
Fixpoint dropna (s : list Np.float) : list R :=
    match s with
    | [] => []
    | Some x :: s' => x :: dropna s'
    | None :: s' => dropna s'
    end.

Definition sum (s : list R) : R := fold_right Rplus 0 s.

  (** [s.mean()] of a Series without NaN: NaN when the Series is empty. *)
Definition mean (s : list R) : Np.float :=
    match s with
    | [] => Np.nan
    | _ :: _ => Some (sum s / INR (List.length s))
    end.

  (** [s.std()] of a Series without NaN: pandas divides by [n - 1], and
      answers NaN when fewer than two values are left. *)
Definition std (s : list R) : Np.float :=
    match s with
    | [] | [_] => Np.nan
    | _ :: _ :: _ =>
        let m := sum s / INR (List.length s) in
        Some (sqrt (sum (map (fun x => (x - m) ^ 2) s) / (INR (List.length s) - 1)))
    end.

End Series.

(** ** Module-level configuration *)

Record warrant : Type := {
  long_ko : R;
  short_ko : R;
  gearing : Z
}.

Definition warrants_data : list (string * warrant) :=
  [ ("WES Tail Hedge (KOQ)"%string,
     {| long_ko := 60.00%R; short_ko := 97.14%R; gearing := 73%Z |}) ].

Definition interval_presets : list (string * Z) :=
  [ ("Turbo Mode (10s)"%string, 10%Z);
    ("Coffee Break (120s)"%string, 120%Z);
    ("Cruise (60s)"%string, 60%Z);
    ("Nap Time (300s)"%string, 300%Z) ].

(** The [dcc.Slider] and the [dcc.Interval] of the layout. *)
Record slider : Type := {
  slider_min : Z;
  slider_max : Z;
  slider_step : Z;
  slider_value : Z
}.

Definition interval_slider : slider :=
  {| slider_min := 10; slider_max := 300; slider_step := 10;
     slider_value := 60 |}.

Definition interval_component_interval : Z := 60 * 1000.

(** The options of the preset dropdown: label [k], value [v] for every item
    of [interval_presets]. *)
Definition preset_dropdown_options : list (string * Z) :=
  map (fun kv => (fst kv, snd kv)) interval_presets.

(** ** The two interval callbacks *)

Definition sync_preset_to_slider (preset_value : Z) : Z := preset_value.

Definition update_interval (seconds : Z) : Z := (seconds * 1000)%Z.

(** ** Text of the summary panel *)

Module Fmt.

Local Open Scope R_scope.

(** The integer nearest to [y], a tie going to the even neighbour: the
    rounding of Python's fixed-point formatting. *)
Definition nearest_even (y : R) : Z :=
  let f := Int_part y in
  let r := y - IZR f in
  if Rlt_dec r (1 / 2) then f
  else if Rlt_dec (1 / 2) r then (f + 1)%Z
  else if Z.even f then f else (f + 1)%Z.

Definition digits (n : Z) : string :=
  DecimalString.NilZero.string_of_uint (N.to_uint (Z.to_N n)).

(** [k] hundredths, [0 <= k], written with two decimals. *)
Definition hundredths (k : Z) : string :=
  let frac := (k mod 100)%Z in
  (digits (k / 100) ++ "." ++
   (if (frac <? 10)%Z then "0" else "") ++ digits frac)%string.

(** [format(x, ".2f")] for a finite [x]. *)
Definition format_2f (x : R) : string :=
  ((if Rlt_dec x 0 then "-" else "") ++
   hundredths (nearest_even (Rabs x * 100)))%string.

End Fmt.

(** One piece of an f-string: literal or already formatted text, or a float
    printed by [str] (its shortest decimal that reads back). *)
Inductive piece : Type :=
| Lit (s : string)
| Str (x : R).

Definition text : Type := list piece.

(** The [dash.html] components the callback builds. *)
Inductive html : Type :=
| P (children : text)
| H4 (children : text)
| Div (children : list html).

(** ** Figures

    A [go.Figure] is kept as its traces and its horizontal reference lines;
    arguments that only place or size a drawing (gauge axis range, domain,
    margins, height, line width) are left out. *)

Inductive trace : Type :=
| Indicator (value : R) (title : string) (bar_color : string)
| Scatter (x : list Z) (y : list Np.float) (name : string).

Record hline : Type := {
  hline_y : R;
  hline_color : string;
  annotation_text : string
}.

Record figure : Type := {
  data : list trace;
  hlines : list hline;
  layout_title : option string
}.

(** [go.Figure()] *)
Definition Figure : figure :=
  {| data := []; hlines := []; layout_title := None |}.

Definition add_trace (f : figure) (t : trace) : figure :=
  {| data := data f ++ [t]; hlines := hlines f;
     layout_title := layout_title f |}.

Definition add_hline (f : figure) (h : hline) : figure :=
  {| data := data f; hlines := hlines f ++ [h];
     layout_title := layout_title f |}.

Definition update_layout_title (f : figure) (t : string) : figure :=
  {| data := data f; hlines := hlines f; layout_title := Some t |}.

(** ** The random generator

    The state of numpy's global generator is the sequence of standard-normal
    values it will deliver from now on. *)

Definition rng : Type := nat -> R.

(** [np.random.normal(0, 1, size)]: the next [size] draws, and the generator
    advanced past them. *)
Definition normal (size : nat) (g : rng) : list R * rng :=
  (map g (seq 0 size), fun k => g (size + k)%nat).

(** ** Exceptions and generator state *)

Inductive result (A : Type) : Type :=
| Ok (a : A)
| Raise (e : string).

Arguments Ok {A} a.
Arguments Raise {A} e.

(** A computation that may raise and that may draw from the generator. *)
Definition M (A : Type) : Type := rng -> result A * rng.

Definition ret {A : Type} (a : A) : M A := fun g => (Ok a, g).

Definition raise {A : Type} (e : string) : M A := fun g => (Raise e, g).

Definition bind {A B : Type} (m : M A) (k : A -> M B) : M B :=
  fun g =>
    match m g with
    | (Ok a, g') => k a g'
    | (Raise e, g') => (Raise e, g')
    end.

Notation "x <- m ;; k" := (bind m (fun x => k))
  (at level 61, m at next level, right associativity).

(** [try: m  except Exception as e: h(e)] *)
Definition try_except {A : Type} (m : M A) (h : string -> A) : rng -> A * rng :=
  fun g =>
    match m g with
    | (Ok a, g') => (a, g')
    | (Raise e, g') => (h e, g')
    end.

(** A value that reaches a callback from a dropdown and is used as a key: a
    string, or [None] while the dropdown is cleared. *)
Definition key : Type := option string.

(** [repr] of a key, as [KeyError] prints it (for a string without quotes or
    escapes). *)
Definition repr (k : key) : string :=
  match k with
  | Some s => ("'" ++ s ++ "'")%string
  | None => "None"%string
  end.

(** [k == k'] for a string [k'] *)
Definition key_eqb (k : key) (k' : string) : bool :=
  match k with
  | Some s => String.eqb s k'
  | None => false
  end.

(** [d[k]] on a dict literal with string keys: the value of the key, or
    [KeyError(k)]. *)
Fixpoint getitem {V : Type} (d : list (string * V)) (k : key) : M V :=
  match d with
  | [] => raise (repr k)
  | (k', v) :: d' => if key_eqb k k' then ret v else getitem d' k
  end.

(** What [yf.Ticker("WES.AX").history(...)] does in one tick: it raises, or it
    returns a frame, of which the callback reads the [Close] column. *)
Inductive feed : Type :=
| Fails (e : string)
| History (close : list R).

Definition history (w : feed) : M (list R) :=
  match w with
  | Fails e => raise e
  | History close => ret close
  end.

(** [np.random.normal(0, 1, size)] as a computation. *)
Definition draw (size : nat) : M (list R) :=
  fun g => let (rand, g') := normal size g in (Ok rand, g').

(** [for i in l: s = body(i, s)] *)
Fixpoint for_each {S : Type} (l : list nat) (body : nat -> S -> M S) (s : S)
  : M S :=
  match l with
  | [] => ret s
  | i :: l' => s' <- body i s ;; for_each l' body s'
  end.

(** ** Buffer calculator *)

Definition long_buffer (current_price long_ko : R) : R :=
  ((current_price - long_ko) / long_ko * 100)%R.

Definition short_buffer (current_price short_ko : R) : R :=
  ((short_ko - current_price) / short_ko * 100)%R.

Definition long_color (long_buffer : R) : string :=
  if Rge_dec long_buffer 5 then "green" else "orange".

Definition short_color (short_buffer : R) : string :=
  if Rge_dec short_buffer 5 then "red" else "darkred".

Definition risk_tag (gearing : Z) : string :=
  if (gearing >? 50)%Z then "🧨 HIGH RISK"
  else if (gearing >? 30)%Z then "⚠️ MODERATE"
  else "✅ Stable".

Definition display_text (current_price long_ko short_ko : R) (gearing : Z)
  : html :=
  let long_buffer := long_buffer current_price long_ko in
  let short_buffer := short_buffer current_price short_ko in
  Div [
    H4 [Lit ("Current WES Price: $" ++ Fmt.format_2f current_price)];
    P [Lit "🟢 MINI Long KO: $"; Str long_ko;
       Lit (" | Buffer: " ++ Fmt.format_2f long_buffer ++ "%")];
    P [Lit "🔴 MINI Short KO: $"; Str short_ko;
       Lit (" | Buffer: " ++ Fmt.format_2f short_buffer ++ "%")];
    P [Lit ("📈 Gearing: " ++ Fmt.format_2f (IZR gearing) ++ "x → "
            ++ risk_tag gearing)]
  ].

(** The gauge chart. *)
Definition fig (current_price long_ko short_ko : R) : figure :=
  let long_buffer := long_buffer current_price long_ko in
  let short_buffer := short_buffer current_price short_ko in
  let fig := Figure in
  let fig :=
    add_trace fig
      (Indicator long_buffer "LONG KO Buffer %" (long_color long_buffer)) in
  let fig :=
    add_trace fig
      (Indicator short_buffer "SHORT KO Buffer %" (short_color short_buffer)) in
  fig.

(** ** Monte Carlo simulation *)

Definition paths : nat := 10.
Definition steps : nat := 30.
Definition dt : Np.float := Some 1%R.

(** [np.log(close / close.shift(1)).dropna()] *)
Definition log_returns (close : list R) : list R :=
  let close := map (@Some R) close in
  Series.dropna
    (map Np.log (Series.zip_with Np.div close (Series.shift1 close))).

Definition grid : Type := list (list Np.float).

(** [np.zeros((rows, cols))] *)
Definition zeros (rows cols : nat) : grid :=
  repeat (repeat (Some 0%R) cols) rows.

(** [a[i] = row] for a row index of the array; no other index is used by the
    callback. *)
Fixpoint setitem (i : nat) (row : list Np.float) (a : grid) : grid :=
  match a, i with
  | [], _ => []
  | _ :: a', O => row :: a'
  | r :: a', S i' => r :: setitem i' row a'
  end.

(** [a[i]] *)
Definition getrow (i : nat) (a : grid) : list Np.float := nth i a [].

(** [a[:, j]] *)
Definition column (j : nat) (a : grid) : list Np.float :=
  map (fun row => nth j row Np.nan) a.

(** The right-hand side of the loop body:
    [prev * np.exp((mu - 0.5 * sigma**2)*dt + sigma * np.sqrt(dt) * rand)] *)
Definition advance (mu sigma : Np.float) (prev : list Np.float)
           (rand : list R) : list Np.float :=
  Series.zip_with Np.mul prev
    (map (fun z =>
            Np.exp ((mu - Some 0.5%R * Np.power sigma 2) * dt
                    + sigma * Np.sqrt dt * Some z)%np)
         rand).

Definition sim_paths (close : list R) (current_price : R) : M grid :=
  let log_returns := log_returns close in
  let mu := Series.mean log_returns in
  let sigma := Series.std log_returns in
  let sim_paths := zeros steps paths in
  let sim_paths := setitem 0 (repeat (Some current_price) paths) sim_paths in
  for_each (seq 1 (steps - 1))
    (fun i sim_paths =>
       rand <- draw paths ;;
       ret (setitem i (advance mu sigma (getrow (i - 1) sim_paths) rand)
              sim_paths))
    sim_paths.

Definition sim_fig (sim_paths : grid) (long_ko short_ko : R) : figure :=
  let sim_fig := Figure in
  let sim_fig :=
    fold_left
      (fun sim_fig j =>
         add_trace sim_fig
           (Scatter (map Z.of_nat (seq 0 steps)) (column j sim_paths)
              ("Path " ++ Fmt.digits (Z.of_nat (j + 1)))))
      (seq 0 paths) sim_fig in
  let sim_fig :=
    add_hline sim_fig
      {| hline_y := long_ko; hline_color := "green";
         annotation_text := "LONG KO" |} in
  let sim_fig :=
    add_hline sim_fig
      {| hline_y := short_ko; hline_color := "red";
         annotation_text := "SHORT KO" |} in
  update_layout_title sim_fig "📉 Simulated 30-Day Price Paths".

(** ** The recompute callback *)

Definition output : Type := (html * figure * figure)%type.

(** The body of the [try] block. *)
Definition update_live_price_try (label : key) (w : feed) : M output :=
  hist <- history w ;;
  match hist with
  | [] => ret (P [Lit "No data available..."], Figure, Figure)
  | _ :: _ =>
      let current_price := last hist 0%R in
      long_ko <- (e <- getitem warrants_data label ;; ret (long_ko e)) ;;
      short_ko <- (e <- getitem warrants_data label ;; ret (short_ko e)) ;;
      gearing <- (e <- getitem warrants_data label ;; ret (gearing e)) ;;
      let display_text := display_text current_price long_ko short_ko gearing in
      let fig := fig current_price long_ko short_ko in
      sim_paths <- sim_paths hist current_price ;;
      let sim_fig := sim_fig sim_paths long_ko short_ko in
      ret (display_text, fig, sim_fig)
  end.

(** [update_live_price(n, label)] in a tick in which the feed behaves as [w]
    and the generator is in state [g]: the three outputs, and the generator
    afterwards. *)
Definition update_live_price (n : Z) (label : key) (w : feed)
  : rng -> output * rng :=
  try_except (update_live_price_try label w)
    (fun e => (P [Lit ("Error loading data: " ++ e)], Figure, Figure)).

(** ** The selectors of the layout *)




Definition preset_dropdown_value : Z := 60.

(** * Vocabulary of the statements *)

(** The only key of [warrants_data], which is also the only option of the
    ticker dropdown. *)
Definition wes_label : key := Some "WES Tail Hedge (KOQ)"%string.

Definition wes_warrant : warrant :=
  {| long_ko := 60.00%R; short_ko := 97.14%R; gearing := 73%Z |}.

(** The number of draws a tick takes when it reaches the simulation. *)
Definition draws_per_tick : nat := paths * (steps - 1).



(** The draws that step [i] of a tick started in generator state [g] takes:
    [paths] values, after the [paths * (i - 1)] taken by the earlier steps. *)
Definition step_draws (g : rng) (i : nat) : list R :=
  map g (seq (paths * (i - 1)) paths).

(** What holds of the array once the steps [1..k] of a tick are done, for
    the drift [mu], the volatility [sigma] and the current price of the tick
    and the generator state [g] in which its loop started. *)
Record sim_inv (mu sigma : Np.float) (current_price : R) (g : rng) (k : nat)
       (sp : grid) : Prop := {
  inv_rows : List.length sp = steps;
  inv_cols : Forall (fun r => List.length r = paths) sp;
  inv_first : getrow 0 sp = repeat (Some current_price) paths;
  inv_step :
    forall i, (1 <= i <= k)%nat ->
      getrow i sp = advance mu sigma (getrow (i - 1) sp) (step_draws g i)
}.

(** The value that the chart draws for path [j] at step [i]. *)
Definition plotted (f : figure) (i j : nat) : Np.float :=
  match nth j (data f) (Scatter [] [] "") with
  | Scatter _ y _ => nth i y Np.nan
  | Indicator _ _ _ => Np.nan
  end.

(** [ln (p / prev)] along a list of closes that follows the close [prev]. *)
Fixpoint ln_ratios (prev : R) (close : list R) : list R :=
  match close with
  | [] => []
  | p :: close' => ln (p / prev) :: ln_ratios p close'
  end.

(** Every entry of the rows 1..29 is the entry above it times the growth
    factor of the source, evaluated at the draw of that step and path: the
    draw number [10 * (i - 1) + j] of the tick. *)
Definition follows_gbm (mu sigma : Np.float) (g : rng) (sp : grid) : Prop :=
  forall i j : nat, (1 <= i <= 29)%nat -> (j < 10)%nat ->
    nth j (getrow i sp) Np.nan
    = (nth j (getrow (i - 1) sp) Np.nan
       * Np.exp ((mu - Some 0.5%R * Np.power sigma 2) * Some 1%R
                 + sigma * Np.sqrt (Some 1%R)
                   * Some (g (10 * (i - 1) + j)%nat)))%np.

(** A generator whose first 290 draws are 0 and whose later draws are 1. *)
Definition zeros_then_ones : rng :=
  fun k => if (k <? draws_per_tick)%nat then 0%R else 1%R.

(** The sum of the draws that path [j] has taken in the steps [1..i] of a
    tick started in generator state [g]. *)
Definition cumulative_draw (g : rng) (i j : nat) : R :=
  Series.sum (map (fun k => g (10 * (k - 1) + j)%nat) (seq 1 i)).

(** The name and the abscissae of a line of the simulation chart. *)
Definition trace_name (t : trace) : string :=
  match t with
  | Scatter _ _ name => name
  | Indicator _ title _ => title
  end.

Definition trace_x (t : trace) : list Z :=
  match t with
  | Scatter x _ _ => x
  | Indicator _ _ _ => []
  end.

(** * Properties *)

(** ** Fixed-point formatting *)






(** ** Arrays *)

Lemma setitem_length (i : nat) (row : list Np.float) (a : grid) :
  List.length (setitem i row a) = List.length a.
Proof.
  revert i; induction a as [| r a IH]; intros [| i]; simpl; auto.
Qed.

Lemma getrow_setitem_same (i : nat) (row : list Np.float) (a : grid) :
  (i < List.length a)%nat -> getrow i (setitem i row a) = row.
Proof.
  unfold getrow. revert i; induction a as [| r a IH]; intros [| i] Hi;
    simpl in *; try lia; auto.
  apply IH; lia.
Qed.

Lemma getrow_setitem_other (i j : nat) (row : list Np.float) (a : grid) :
  i <> j -> getrow j (setitem i row a) = getrow j a.
Proof.
  unfold getrow. revert i j; induction a as [| r a IH]; intros [| i] [| j] Hij;
    simpl; try congruence; auto.
Qed.

Lemma setitem_cols (n i : nat) (row : list Np.float) (a : grid) :
  List.length row = n ->
  Forall (fun r => List.length r = n) a ->
  Forall (fun r => List.length r = n) (setitem i row a).
Proof.
  intros Hrow Ha. revert i; induction Ha as [| r a Hr Ha IH]; intros [| i];
    simpl; auto.
Qed.

Lemma getrow_cols (n i : nat) (a : grid) :
  Forall (fun r => List.length r = n) a -> (i < List.length a)%nat ->
  List.length (getrow i a) = n.
Proof.
  intros Ha Hi. unfold getrow.
  rewrite Forall_forall in Ha. apply Ha, nth_In, Hi.
Qed.

Lemma zip_with_length (f : Np.float -> Np.float -> Np.float)
      (s t : list Np.float) :
  List.length s = List.length t ->
  List.length (Series.zip_with f s t) = List.length s.
Proof.
  revert t; induction s as [| a s IH]; intros [| b t] H; simpl in *;
    try discriminate; auto.
Qed.

Lemma advance_length (mu sigma : Np.float) (prev : list Np.float)
      (rand : list R) :
  List.length prev = List.length rand ->
  List.length (advance mu sigma prev rand) = List.length prev.
Proof.
  intros H. unfold advance. apply zip_with_length.
  now rewrite length_map.
Qed.

Lemma nth_zip_with (f : Np.float -> Np.float -> Np.float)
      (s t : list Np.float) (j : nat) (d : Np.float) :
  (j < List.length s)%nat -> (j < List.length t)%nat ->
  nth j (Series.zip_with f s t) d = f (nth j s d) (nth j t d).
Proof.
  revert t j; induction s as [| a s IH]; intros [| b t] [| j] Hs Ht;
    simpl in *; try lia; auto.
  apply IH; lia.
Qed.

(** ** Loops in [M] *)

Lemma for_each_app {S : Type} (l1 l2 : list nat) (body : nat -> S -> M S)
      (s : S) (g : rng) :
  for_each (l1 ++ l2) body s g =
  (s' <- for_each l1 body s ;; for_each l2 body s') g.
Proof.
  revert s g; induction l1 as [| i l1 IH]; intros s g; simpl.
  - reflexivity.
  - unfold bind. destruct (body i s g) as [[s' | e] g'].
    + rewrite IH. reflexivity.
    + reflexivity.
Qed.

(** ** The simulation loop *)

Lemma map_seq_offset (g g' : rng) (m n : nat) :
  (forall j, g' j = g (m + j)%nat) ->
  map g' (seq 0 n) = map g (seq m n).
Proof.
  intros Hg. revert g g' m Hg; induction n as [| n IH]; intros g g' m Hg.
  - reflexivity.
  - simpl. f_equal.
    + rewrite Hg. f_equal. lia.
    + rewrite <- seq_shift, map_map.
      rewrite <- (IH g (fun j => g' (S j)) (S m)).
      * reflexivity.
      * intros j. rewrite Hg. f_equal. lia.
Qed.

Section SimulationLoop.

Variables (mu sigma : Np.float) (current_price : R) (g : rng).

Let body (i : nat) (sim_paths : grid) : M grid :=
  rand <- draw paths ;;
  ret (setitem i (advance mu sigma (getrow (i - 1) sim_paths) rand)
         sim_paths).

Let init : grid :=
  setitem 0 (repeat (Some current_price) paths) (zeros steps paths).

Lemma sim_inv_init : sim_inv mu sigma current_price g 0 init.
Proof.
  split.
  - reflexivity.
  - unfold init, zeros, steps, paths. simpl. repeat constructor.
  - reflexivity.
  - intros i Hi. lia.
Qed.

Lemma sim_inv_step (k : nat) (sp : grid) (g' : rng) :
  (S k <= steps - 1)%nat ->
  (forall j, g' j = g (paths * k + j)%nat) ->
  sim_inv mu sigma current_price g k sp ->
  sim_inv mu sigma current_price g (S k)
    (setitem (S k)
       (advance mu sigma (getrow k sp) (map g' (seq 0 paths))) sp).
Proof.
  intros Hk Hg' [Hrows Hcols Hfirst Hstep].
  assert (Hlt : (S k < List.length sp)%nat) by (rewrite Hrows; unfold steps in *; lia).
  assert (Hrow : List.length (advance mu sigma (getrow k sp) (map g' (seq 0 paths)))
                 = paths).
  { assert (Hprev : List.length (getrow k sp) = paths)
      by (apply getrow_cols; [assumption | lia]).
    rewrite advance_length; [exact Hprev |].
    now rewrite Hprev, length_map, length_seq. }
  split.
  - rewrite setitem_length. exact Hrows.
  - apply setitem_cols; assumption.
  - rewrite getrow_setitem_other by lia. exact Hfirst.
  - intros i Hi.
    destruct (Nat.eq_dec i (S k)) as [-> | Hne].
    + rewrite getrow_setitem_same by exact Hlt.
      rewrite getrow_setitem_other by lia.
      replace (S k - 1)%nat with k by lia.
      f_equal. unfold step_draws.
      replace (S k - 1)%nat with k by lia.
      apply map_seq_offset. exact Hg'.
    + rewrite !getrow_setitem_other by lia.
      apply Hstep. lia.
Qed.

Lemma sim_loop_spec (k : nat) :
  (k <= steps - 1)%nat ->
  exists (sp : grid) (g' : rng),
    for_each (seq 1 k) body init g = (Ok sp, g') /\
    (forall j, g' j = g (paths * k + j)%nat) /\
    sim_inv mu sigma current_price g k sp.
Proof.
  induction k as [| k IH]; intros Hk.
  - exists init, g. split; [reflexivity | split].
    + intros j. reflexivity.
    + exact sim_inv_init.
  - destruct (IH ltac:(lia)) as (sp & g' & Hrun & Hg' & Hinv).
    exists (setitem (S k)
              (advance mu sigma (getrow k sp) (map g' (seq 0 paths))) sp),
      (fun j => g' (paths + j)%nat).
    split; [| split].
    + rewrite seq_S, for_each_app. unfold bind at 1. rewrite Hrun.
      simpl for_each. unfold bind, body, draw, normal, ret.
      cbn [Nat.add Nat.sub]. rewrite Nat.sub_0_r. reflexivity.
    + intros j. rewrite Hg'. f_equal. lia.
    + apply sim_inv_step; assumption.
Qed.

End SimulationLoop.

(** ** One tick of [update_live_price], case by case *)

Lemma getitem_warrants_data (label : key) (g : rng) :
  getitem warrants_data label g =
  if key_eqb label "WES Tail Hedge (KOQ)" then (Ok wes_warrant, g)
  else (Raise (repr label), g).
Proof.
  unfold warrants_data, getitem, wes_warrant, ret, raise.
  destruct (key_eqb label "WES Tail Hedge (KOQ)"); reflexivity.
Qed.

Lemma key_eqb_wes_label : key_eqb wes_label "WES Tail Hedge (KOQ)" = true.
Proof. reflexivity. Qed.


Lemma sim_paths_spec (close : list R) (current_price : R) (g : rng) :
  exists (sp : grid) (g' : rng),
    sim_paths close current_price g = (Ok sp, g') /\
    (forall j, g' j = g (draws_per_tick + j)%nat) /\
    sim_inv (Series.mean (log_returns close)) (Series.std (log_returns close))
      current_price g (steps - 1) sp.
Proof.
  unfold sim_paths, draws_per_tick. apply sim_loop_spec. lia.
Qed.




Lemma tick_rendered (n : Z) (p : R) (hist : list R) (g : rng) :
  let close := p :: hist in
  let current_price := last close 0%R in
  exists (sp : grid) (g' : rng),
    update_live_price n wes_label (History close) g
    = ((display_text current_price 60.00 97.14 73,
        fig current_price 60.00 97.14,
        sim_fig sp 60.00 97.14), g') /\
    (forall j, g' j = g (draws_per_tick + j)%nat) /\
    sim_inv (Series.mean (log_returns close)) (Series.std (log_returns close))
      current_price g (steps - 1) sp.
Proof.
  intros close current_price.
  destruct (sim_paths_spec close current_price g) as (sp & g' & Hrun & Hg' & Hinv).
  exists sp, g'. split; [| split; assumption].
  unfold update_live_price, try_except, update_live_price_try, history.
  subst close. unfold bind at 1. unfold ret at 1. cbv beta iota.
  fold current_price.
  do 3 (unfold bind at 1; unfold bind at 1;
        rewrite getitem_warrants_data, key_eqb_wes_label; unfold ret at 1).
  unfold bind at 1. rewrite Hrun. reflexivity.
Qed.

(** A frame with at least one row, given by its last close. *)
Lemma tick_rendered_last (n : Z) (hist : list R) (P0 : R) (g : rng) :
  let close := hist ++ [P0] in
  exists (sp : grid) (g' : rng),
    update_live_price n wes_label (History close) g
    = ((display_text P0 60.00 97.14 73,
        fig P0 60.00 97.14,
        sim_fig sp 60.00 97.14), g') /\
    (forall j, g' j = g (draws_per_tick + j)%nat) /\
    sim_inv (Series.mean (log_returns close)) (Series.std (log_returns close))
      P0 g (steps - 1) sp.
Proof.
  intros close.
  assert (Hlast : last close 0%R = P0) by apply last_last.
  destruct close as [| p rest] eqn:Hclose.
  - destruct hist; discriminate.
  - rewrite <- Hlast. apply tick_rendered.
Qed.

(** The traces of the simulation chart are the columns of the array. *)
Lemma sim_fig_data (sp : grid) (long_ko short_ko : R) :
  data (sim_fig sp long_ko short_ko)
  = map (fun j => Scatter (map Z.of_nat (seq 0 steps)) (column j sp)
                    ("Path " ++ Fmt.digits (Z.of_nat (j + 1))))
      (seq 0 paths).
Proof. reflexivity. Qed.

Lemma nth_column (sp : grid) (i j : nat) :
  nth i (column j sp) Np.nan = nth j (getrow i sp) Np.nan.
Proof.
  unfold column, getrow. revert i; induction sp as [| r sp IH]; intros [| i];
    simpl; auto; destruct j; reflexivity.
Qed.

Lemma plotted_sim_fig (sp : grid) (long_ko short_ko : R) (i j : nat) :
  (j < paths)%nat ->
  plotted (sim_fig sp long_ko short_ko) i j = nth j (getrow i sp) Np.nan.
Proof.
  intros Hj. unfold plotted. rewrite sim_fig_data.
  set (f := fun j0 : nat =>
              Scatter (map Z.of_nat (seq 0 steps)) (column j0 sp)
                ("Path " ++ Fmt.digits (Z.of_nat (j0 + 1)))).
  rewrite (nth_indep _ (Scatter [] [] "") (f 0%nat))
    by (rewrite length_map, length_seq; exact Hj).
  rewrite (map_nth f), seq_nth by exact Hj.
  subst f. cbv beta. cbn [Nat.add]. apply nth_column.
Qed.

(** * The claims *)

(** ** Buffer calculator *)




(** C5. The risk tag depends on the gearing alone and has three steps: above
    50 it is the HIGH RISK label, above 30 and up to 50 the MODERATE label,
    and the Stable label otherwise (each label carries its pictograph); so
    73, 40 and 20 give the three labels in turn. *)
Theorem risk_tag_steps :
  (forall g : Z,
      (50 < g /\ risk_tag g = "🧨 HIGH RISK"%string)%Z
      \/ (30 < g <= 50 /\ risk_tag g = "⚠️ MODERATE"%string)%Z
      \/ (g <= 30 /\ risk_tag g = "✅ Stable"%string)%Z)
  /\ risk_tag 73 = "🧨 HIGH RISK"%string
  /\ risk_tag 40 = "⚠️ MODERATE"%string
  /\ risk_tag 20 = "✅ Stable"%string.
Proof.
  split; [| repeat split].
  intros g. unfold risk_tag.
  destruct (Z.gtb_spec g 50) as [H50 | H50].
  - left. split; [lia | reflexivity].
  - destruct (Z.gtb_spec g 30) as [H30 | H30].
    + right; left. split; [lia | reflexivity].
    + right; right. split; [lia | reflexivity].
Qed.

(** ** Interval controls *)

(** C9. The timer period is the selected number of seconds times 1000, for a
    value coming from the slider and for one coming through the preset
    dropdown; the preset of 120 seconds gives 120000 ms and a slider value of
    45 gives 45000 ms; the slider runs from 10 to 300 in steps of 10. *)
Theorem timer_period_in_milliseconds :
  (forall seconds : Z,
      update_interval seconds = (seconds * 1000)%Z
      /\ update_interval (sync_preset_to_slider seconds) = (seconds * 1000)%Z)
  /\ In ("Coffee Break (120s)"%string, 120%Z) preset_dropdown_options
  /\ update_interval (sync_preset_to_slider 120) = 120000%Z
  /\ update_interval 45 = 45000%Z
  /\ (slider_min interval_slider, slider_max interval_slider,
      slider_step interval_slider) = (10, 300, 10)%Z.
Proof.
  split; [| repeat split].
  - intros seconds. split; reflexivity.
  - simpl. auto.
Qed.

(** ** Empty frames and failures *)

(** C6. When the feed returns a frame without rows the callback returns the
    no-data paragraph with two empty figures, whatever the selected label and
    the generator state, and leaves the generator as it was. *)
Theorem empty_series_gives_no_data (n : Z) (label : key) (g : rng) :
  update_live_price n label (History []) g
  = ((P [Lit "No data available..."], Figure, Figure), g)
  /\ data Figure = [] /\ hlines Figure = [].
Proof. repeat split. Qed.

(** ** Simulation grid *)

Lemma advance_nth (mu sigma : Np.float) (prev : list Np.float)
      (rand : list R) (j : nat) :
  (j < List.length prev)%nat -> List.length prev = List.length rand ->
  nth j (advance mu sigma prev rand) Np.nan
  = (nth j prev Np.nan
     * Np.exp ((mu - Some 0.5%R * Np.power sigma 2) * dt
               + sigma * Np.sqrt dt * Some (nth j rand 0%R)))%np.
Proof.
  intros Hj Hlen. unfold advance.
  rewrite nth_zip_with by (rewrite ?length_map; lia).
  f_equal.
  set (f := fun z : R =>
              Np.exp ((mu - Some 0.5%R * Np.power sigma 2) * dt
                      + sigma * Np.sqrt dt * Some z)%np).
  rewrite (nth_indep _ Np.nan (f 0%R)) by (rewrite length_map; lia).
  apply map_nth.
Qed.

Lemma step_draws_nth (g : rng) (i j : nat) :
  (j < paths)%nat ->
  nth j (step_draws g i) 0%R = g (paths * (i - 1) + j)%nat.
Proof.
  intros Hj. unfold step_draws.
  rewrite (nth_indep _ 0%R (g 0%nat)) by (rewrite length_map, length_seq; exact Hj).
  rewrite map_nth, seq_nth by exact Hj. reflexivity.
Qed.

Lemma step_draws_length (g : rng) (i : nat) :
  List.length (step_draws g i) = paths.
Proof. unfold step_draws. now rewrite length_map, length_seq. Qed.

Lemma sim_inv_row_length (mu sigma : Np.float) (P0 : R) (g : rng) (k : nat)
      (sp : grid) (i : nat) :
  sim_inv mu sigma P0 g k sp -> (i < steps)%nat ->
  List.length (getrow i sp) = paths.
Proof.
  intros [Hrows Hcols _ _] Hi. apply getrow_cols; [exact Hcols | lia].
Qed.

(** C2. In every tick whose frame is not empty the simulated array has 30
    rows of 10 entries, and every entry of row 0 is the current price (the
    last close); the chart accordingly shows 10 lines of 30 points that all
    start at the current price. *)
Theorem simulation_grid_shape (n : Z) (hist : list R) (P0 : R) (g : rng) :
  let sim_chart :=
    snd (fst (update_live_price n wes_label (History (hist ++ [P0])) g)) in
  exists sim_paths : grid,
    sim_chart = sim_fig sim_paths 60.00 97.14
    /\ List.length sim_paths = 30%nat
    /\ Forall (fun row => List.length row = 10%nat) sim_paths
    /\ getrow 0 sim_paths = repeat (Some P0) 10
    /\ List.length (data sim_chart) = 10%nat
    /\ Forall (fun t => match t with
                        | Scatter _ y _ =>
                            List.length y = 30%nat /\ nth 0 y Np.nan = Some P0
                        | Indicator _ _ _ => False
                        end) (data sim_chart).
Proof.
  intros sim_chart. subst sim_chart.
  destruct (tick_rendered_last n hist P0 g) as (sp & g' & Hrun & _ & Hinv).
  rewrite Hrun. cbn [fst snd]. exists sp.
  destruct Hinv as [Hrows Hcols Hfirst _].
  split; [reflexivity |].
  split; [exact Hrows |].
  split; [exact Hcols |].
  split; [exact Hfirst |].
  split; [reflexivity |].
  rewrite sim_fig_data. apply Forall_forall. intros t Ht.
  apply in_map_iff in Ht. destruct Ht as (j & <- & Hj).
  apply in_seq in Hj. split.
  - unfold column. rewrite length_map. exact Hrows.
  - rewrite nth_column, Hfirst. apply nth_repeat_lt. lia.
Qed.

(** ** Short frames *)

Lemma growth_factor_nan (mu sigma : Np.float) (z : R) :
  Np.isnan mu = true \/ Np.isnan sigma = true ->
  Np.exp ((mu - Some 0.5%R * Np.power sigma 2) * dt
          + sigma * Np.sqrt dt * Some z)%np = Np.nan.
Proof.
  intros [H | H]; destruct mu, sigma; try discriminate; reflexivity.
Qed.

Lemma advance_nan (mu sigma : Np.float) (prev : list Np.float)
      (rand : list R) :
  Np.isnan mu = true \/ Np.isnan sigma = true ->
  List.length prev = List.length rand ->
  advance mu sigma prev rand = repeat Np.nan (List.length prev).
Proof.
  intros Hnan. unfold advance.
  revert rand; induction prev as [| a prev IH]; intros [| z rand] Hlen;
    cbn [Series.zip_with map List.length repeat] in *; try discriminate; auto.
  rewrite growth_factor_nan by exact Hnan.
  f_equal.
  - destruct a; reflexivity.
  - apply IH. lia.
Qed.

(** With an undefined drift or volatility every row after the first is NaN. *)
Lemma sim_inv_nan (mu sigma : Np.float) (P0 : R) (g : rng) (sp : grid) :
  Np.isnan mu = true \/ Np.isnan sigma = true ->
  sim_inv mu sigma P0 g (steps - 1) sp ->
  sp = repeat (Some P0) paths :: repeat (repeat Np.nan paths) (steps - 1).
Proof.
  intros Hnan Hinv.
  apply (nth_ext _ _ [] []).
  - rewrite (inv_rows Hinv). reflexivity.
  - intros i Hi. rewrite (inv_rows Hinv) in Hi.
    destruct i as [| i].
    + exact (inv_first Hinv).
    + change (nth (S i) sp []) with (getrow (S i) sp).
      rewrite (inv_step Hinv) by (unfold steps in *; lia).
      rewrite advance_nan; try exact Hnan.
      * rewrite (sim_inv_row_length (i := S i - 1) Hinv) by lia.
        cbn [nth]. symmetry. apply nth_repeat_lt. unfold steps in *; lia.
      * rewrite (sim_inv_row_length (i := S i - 1) Hinv) by lia.
        now rewrite step_draws_length.
Qed.

Lemma log_returns_one_point (P0 : R) : log_returns [P0] = [].
Proof. reflexivity. Qed.

(** C3 (what the code does). A frame with a single row is treated like any
    other non-empty frame: the callback returns the summary and the gauges of
    that close and a simulation chart, and in the simulated array only row 0
    holds the close while the 29 rows after it are NaN throughout.  Nothing
    tells the caller that the simulation could not be run. *)
Theorem one_point_series_yields_nan_rows (n : Z) (P0 : R) (g : rng) :
  fst (update_live_price n wes_label (History [P0]) g)
  = (display_text P0 60.00 97.14 73,
     fig P0 60.00 97.14,
     sim_fig (repeat (Some P0) 10 :: repeat (repeat Np.nan 10) 29)
       60.00 97.14)
  /\ Series.mean (log_returns [P0]) = Np.nan
  /\ Series.std (log_returns [P0]) = Np.nan.
Proof.
  split; [| split; reflexivity].
  destruct (tick_rendered_last n [] P0 g) as (sp & g' & Hrun & _ & Hinv).
  cbn [app] in Hrun, Hinv. rewrite Hrun. cbn [fst].
  rewrite (sim_inv_nan (sp := sp)) with (1 := or_introl eq_refl) (2 := Hinv).
  reflexivity.
Qed.

(** ** Drift, volatility and the recurrence of the paths *)

Lemma log_returns_tail (q : R) (close : list R) :
  (0 < q)%R -> Forall (fun p => 0 < p)%R close ->
  Series.dropna
    (map Np.log
       (Series.zip_with Np.div (map (@Some R) close)
          (removelast (Some q :: map (@Some R) close))))
  = ln_ratios q close.
Proof.
  intros Hq Hpos. revert q Hq; induction Hpos as [| p close Hp Hpos IH];
    intros q Hq.
  - reflexivity.
  - cbn [map removelast Series.zip_with].
    change (removelast (Some q :: Some p :: map (@Some R) close))
      with (Some q :: removelast (Some p :: map (@Some R) close)).
    cbn [Series.zip_with map]. unfold Np.div at 1.
    destruct (Req_dec_T q 0) as [Hz | _]; [lra |].
    unfold Np.log at 1.
    destruct (Rlt_dec 0 (p / q)) as [_ | Hn].
    + cbn [Series.dropna ln_ratios]. f_equal. apply IH. exact Hp.
    + exfalso. apply Hn. apply Rdiv_lt_0_compat; assumption.
Qed.

Lemma ln_ratios_nth (q : R) (close : list R) :
  ln_ratios q close
  = map (fun t => ln (nth t (q :: close) 0 / nth (t - 1) (q :: close) 0))%R
      (seq 1 (List.length close)).
Proof.
  revert q; induction close as [| p close IH]; intros q.
  - reflexivity.
  - cbn [ln_ratios List.length seq map]. f_equal.
    rewrite IH, <- (seq_shift (List.length close) 1), map_map.
    apply map_ext_in. intros t Ht. apply in_seq in Ht.
    destruct t as [| t]; [lia |].
    cbn [Nat.sub nth]. rewrite Nat.sub_0_r. reflexivity.
Qed.

(** With positive closes, [dropna] removes the first entry only, and the
    log-returns are [ln (close[t] / close[t-1])] for [t = 1 .. len - 1]. *)
Lemma log_returns_positive (close : list R) :
  Forall (fun p => 0 < p)%R close ->
  log_returns close
  = map (fun t => ln (nth t close 0 / nth (t - 1) close 0))%R
      (seq 1 (List.length close - 1)).
Proof.
  intros Hpos. destruct Hpos as [| q close Hq Hpos].
  - reflexivity.
  - unfold log_returns, Series.shift1.
    cbn [map Series.zip_with Np.div Np.nan Np.log Series.dropna].
    rewrite log_returns_tail by assumption.
    rewrite ln_ratios_nth. cbn [List.length Nat.sub].
    rewrite Nat.sub_0_r. reflexivity.
Qed.


Lemma sim_inv_follows_gbm (mu sigma : Np.float) (P0 : R) (g : rng)
      (sp : grid) :
  sim_inv mu sigma P0 g (steps - 1) sp -> follows_gbm mu sigma g sp.
Proof.
  intros Hinv i j Hi Hj.
  rewrite (inv_step Hinv) by (unfold steps; lia).
  assert (Hprev : List.length (getrow (i - 1) sp) = paths)
    by (apply (sim_inv_row_length Hinv); unfold steps; lia).
  rewrite advance_nth
    by (rewrite ?step_draws_length, Hprev; unfold paths; lia).
  rewrite step_draws_nth by (unfold paths; lia).
  reflexivity.
Qed.



(** ** Failures of a tick *)



(** ** What a tick depends on *)








(** * Further properties of the callbacks *)

(** ** Gauges *)


(** ** Buffers *)

(** X2. For positive barriers the sign of a buffer tells the side of the
    barrier: the long buffer is positive exactly above the long barrier and
    zero exactly on it, the short buffer is positive exactly below the short
    barrier and zero exactly on it. *)
Theorem buffer_sign_tells_the_side (L S P0 : R) :
  (0 < L)%R -> (0 < S)%R ->
  ((0 < long_buffer P0 L)%R <-> (L < P0)%R)
  /\ (long_buffer P0 L = 0%R <-> P0 = L)
  /\ ((0 < short_buffer P0 S)%R <-> (P0 < S)%R)
  /\ (short_buffer P0 S = 0%R <-> P0 = S).
Proof.
  intros HL HS.
  assert (HkL : (0 < 100 / L)%R) by (apply Rdiv_lt_0_compat; lra).
  assert (HkS : (0 < 100 / S)%R) by (apply Rdiv_lt_0_compat; lra).
  assert (El : long_buffer P0 L = ((P0 - L) * (100 / L))%R)
    by (unfold long_buffer; field; lra).
  assert (Es : short_buffer P0 S = ((S - P0) * (100 / S))%R)
    by (unfold short_buffer; field; lra).
  rewrite El, Es. repeat split; intros H; nra.
Qed.

Lemma buffer_sign_tells_the_side_witness :
  ((0 < long_buffer 80 60.00)%R <-> (60.00 < 80)%R)
  /\ (long_buffer 80 60.00 = 0%R <-> 80%R = 60.00%R)
  /\ ((0 < short_buffer 80 97.14)%R <-> (80 < 97.14)%R)
  /\ (short_buffer 80 97.14 = 0%R <-> 80%R = 97.14%R).
Proof.
  apply (@buffer_sign_tells_the_side 60.00 97.14 80); lra.
Defined.



(** ** Simulation *)

Lemma std_two_rows (p0 p1 : R) : Series.std (log_returns [p0; p1]) = Np.nan.
Proof.
  unfold log_returns, Series.shift1.
  cbn [map removelast Series.zip_with Np.div Np.nan].
  destruct (Req_dec_T p0 0) as [_ | _]; cbn [map Np.log Series.dropna Np.nan].
  - reflexivity.
  - destruct (Rlt_dec 0 (p1 / p0)); reflexivity.
Qed.

(** X4. A frame of exactly two rows yields one log-return at most, whose
    sample standard deviation is NaN: the callback still returns the summary,
    the gauges and a chart, and in the simulated array only row 0 holds the
    last close while the 29 rows after it are NaN throughout. *)
Theorem two_point_series_yields_nan_rows (n : Z) (p0 p1 : R) (g : rng) :
  fst (update_live_price n wes_label (History [p0; p1]) g)
  = (display_text p1 60.00 97.14 73,
     fig p1 60.00 97.14,
     sim_fig (repeat (Some p1) 10 :: repeat (repeat Np.nan 10) 29)
       60.00 97.14)
  /\ Series.std (log_returns [p0; p1]) = Np.nan.
Proof.
  split; [| apply std_two_rows].
  destruct (tick_rendered_last n [p0] p1 g) as (sp & g' & Hrun & _ & Hinv).
  cbn [app] in Hrun, Hinv. rewrite Hrun. cbn [fst].
  rewrite std_two_rows in Hinv.
  rewrite (sim_inv_nan (sp := sp)) with (1 := or_intror eq_refl) (2 := Hinv).
  reflexivity.
Qed.

Lemma sum_app (a b : list R) :
  Series.sum (a ++ b) = (Series.sum a + Series.sum b)%R.
Proof.
  unfold Series.sum. induction a as [| x a IH]; simpl; [lra | rewrite IH; lra].
Qed.

Lemma cumulative_draw_S (g : rng) (i j : nat) :
  cumulative_draw g (S i) j
  = (cumulative_draw g i j + g (10 * i + j)%nat)%R.
Proof.
  unfold cumulative_draw. rewrite seq_S, map_app, sum_app.
  cbn [map Series.sum fold_right Nat.add].
  replace (S i - 1)%nat with i by lia. lra.
Qed.

Lemma growth_factor_finite (m s z : R) :
  Np.exp ((Some m - Some 0.5%R * Np.power (Some s) 2) * Some 1%R
          + Some s * Np.sqrt (Some 1%R) * Some z)%np
  = Some (exp ((m - 0.5 * s ^ 2) * 1 + s * 1 * z))%R.
Proof.
  unfold Np.sqrt. destruct (Rle_dec 0 1) as [_ | Hn]; [| lra].
  rewrite sqrt_1. reflexivity.
Qed.

(** With a finite drift and volatility every entry is the current price
    times one exponential. *)
Lemma closed_form_cells (m s P0 : R) (g : rng) (sp : grid) :
  sim_inv (Some m) (Some s) P0 g (steps - 1) sp ->
  forall i j : nat, (i < 30)%nat -> (j < 10)%nat ->
    nth j (getrow i sp) Np.nan
    = Some (P0 * exp (INR i * (m - 0.5 * s ^ 2) + s * cumulative_draw g i j))%R.
Proof.
  intros Hinv i j Hi Hj. induction i as [| i IH].
  - rewrite (inv_first Hinv), nth_repeat_lt by (unfold paths; lia).
    f_equal. unfold cumulative_draw. cbn [seq map Series.sum fold_right INR].
    replace (0 * (m - 0.5 * s ^ 2) + s * 0)%R with 0%R by lra.
    rewrite exp_0. lra.
  - rewrite (sim_inv_follows_gbm Hinv (i := S i) (j := j)) by lia.
    replace (S i - 1)%nat with i by lia.
    rewrite IH by lia. rewrite growth_factor_finite.
    cbn [Np.mul Np.lift2]. f_equal.
    rewrite Rmult_assoc, <- exp_plus. f_equal. f_equal.
    rewrite cumulative_draw_S, S_INR. ring.
Qed.

Lemma estimates_finite (close : list R) :
  (3 <= List.length close)%nat -> Forall (fun p => 0 < p)%R close ->
  exists m s : R,
    Series.mean (log_returns close) = Some m
    /\ Series.std (log_returns close) = Some s.
Proof.
  intros Hlen Hpos. rewrite (log_returns_positive Hpos).
  destruct (List.length close - 1)%nat as [| [| k]] eqn:Hk; try lia.
  cbn [seq map]. eexists _, _. split; reflexivity.
Qed.

(** The chart of a tick over at least three positive closes. *)
Lemma chart_closed_form (n : Z) (close : list R) (g : rng) :
  (3 <= List.length close)%nat -> Forall (fun p => 0 < p)%R close ->
  exists m s : R,
    Series.mean (log_returns close) = Some m
    /\ Series.std (log_returns close) = Some s
    /\ forall i j : nat, (i < 30)%nat -> (j < 10)%nat ->
         plotted (snd (fst (update_live_price n wes_label (History close) g)))
           i j
         = Some (last close 0
                 * exp (INR i * (m - 0.5 * s ^ 2)
                        + s * cumulative_draw g i j))%R.
Proof.
  intros Hlen Hpos.
  destruct (estimates_finite Hlen Hpos) as (m & s & Hm & Hs).
  exists m, s. split; [exact Hm | split; [exact Hs |]].
  destruct close as [| p rest]; [simpl in Hlen; lia |].
  destruct (tick_rendered n p rest g) as (sp & g' & Hrun & _ & Hinv).
  rewrite Hm, Hs in Hinv.
  intros i j Hi Hj. rewrite Hrun. cbn [fst snd].
  rewrite plotted_sim_fig by (unfold paths; lia).
  apply (closed_form_cells Hinv); assumption.
Qed.






Lemma sum_zeros (l : list R) :
  Forall (fun x => x = 0%R) l -> Series.sum l = 0%R.
Proof.
  unfold Series.sum. induction 1 as [| x l Hx Hl IH]; simpl; [reflexivity |].
  rewrite Hx, IH. lra.
Qed.

Lemma sum_squares_zeros (l : list R) :
  Forall (fun x => x = 0%R) l ->
  Series.sum (map (fun x => (x - 0) ^ 2)%R l) = 0%R.
Proof.
  intros Hl. apply sum_zeros. apply Forall_map.
  eapply Forall_impl; [| exact Hl]. intros x ->. cbn. lra.
Qed.

Lemma mean_zeros (l : list R) (m : R) :
  Forall (fun x => x = 0%R) l -> Series.mean l = Some m -> m = 0%R.
Proof.
  intros Hl Hm. destruct l as [| a l]; [discriminate |].
  assert (Em : m = (Series.sum (a :: l) / INR (List.length (a :: l)))%R)
    by (unfold Series.mean in Hm; congruence).
  rewrite Em, (sum_zeros Hl). unfold Rdiv. apply Rmult_0_l.
Qed.

Lemma std_zeros (l : list R) (s : R) :
  Forall (fun x => x = 0%R) l -> Series.std l = Some s -> s = 0%R.
Proof.
  intros Hl Hs. destruct l as [| a [| b l]]; try discriminate.
  set (c := a :: b :: l) in *.
  assert (Es : s = sqrt (Series.sum
                           (map (fun x => (x - Series.sum c
                                               / INR (List.length c)) ^ 2)%R c)
                         / (INR (List.length c) - 1)))
    by (unfold Series.std in Hs; subst c; cbv zeta in Hs; congruence).
  rewrite Es, (sum_zeros Hl).
  replace (0 / INR (List.length c))%R with 0%R
    by (unfold Rdiv; now rewrite Rmult_0_l).
  rewrite (sum_squares_zeros Hl).
  unfold Rdiv. rewrite Rmult_0_l. apply sqrt_0.
Qed.

Lemma log_returns_constant (p : R) (k : nat) :
  (0 < p)%R -> Forall (fun x => x = 0%R) (log_returns (repeat p k)).
Proof.
  intros Hp.
  rewrite log_returns_positive
    by (apply Forall_forall; intros x Hx; apply repeat_spec in Hx; now subst).
  apply Forall_map, Forall_forall. intros t Ht. apply in_seq in Ht.
  rewrite repeat_length in Ht.
  rewrite !nth_repeat_lt by lia.
  replace (p / p)%R with 1%R by (field; lra). apply ln_1.
Qed.

(** X7. When all the closes of a frame of at least three rows are the same
    positive price, the drift and the volatility are zero and the paths do
    not move: every value of the simulation chart is that price, whatever the
    generator delivers. *)
Theorem constant_closes_give_flat_paths (n : Z) (p : R) (k : nat) (g : rng) :
  (0 < p)%R -> (3 <= k)%nat ->
  Series.mean (log_returns (repeat p k)) = Some 0%R
  /\ Series.std (log_returns (repeat p k)) = Some 0%R
  /\ forall i j : nat, (i < 30)%nat -> (j < 10)%nat ->
       plotted (snd (fst (update_live_price n wes_label
                            (History (repeat p k)) g))) i j
       = Some p.
Proof.
  intros Hp Hk.
  assert (Hpos : Forall (fun x => 0 < x)%R (repeat p k))
    by (apply Forall_forall; intros x Hx; apply repeat_spec in Hx; now subst).
  assert (Hlen : (3 <= List.length (repeat p k))%nat)
    by now rewrite repeat_length.
  destruct (chart_closed_form n g Hlen Hpos) as (m & s & Hm & Hs & Hcell).
  assert (Hm0 : m = 0%R) by exact (mean_zeros (log_returns_constant k Hp) Hm).
  assert (Hs0 : s = 0%R) by exact (std_zeros (log_returns_constant k Hp) Hs).
  subst m s. split; [exact Hm | split; [exact Hs |]].
  intros i j Hi Hj. rewrite (Hcell i j Hi Hj). f_equal.
  replace (INR i * (0 - 0.5 * 0 ^ 2) + 0 * cumulative_draw g i j)%R
    with 0%R by ring.
  rewrite exp_0.
  assert (Hlast : last (repeat p k) 0%R = p).
  { destruct k as [| k]; [lia |].
    replace (S k) with (k + 1)%nat by lia.
    rewrite repeat_app. apply last_last. }
  rewrite Hlast. lra.
Qed.

Lemma constant_closes_give_flat_paths_witness :
  Series.mean (log_returns (repeat 80%R 5)) = Some 0%R
  /\ Series.std (log_returns (repeat 80%R 5)) = Some 0%R
  /\ forall i j : nat, (i < 30)%nat -> (j < 10)%nat ->
       plotted (snd (fst (update_live_price 0 wes_label
                            (History (repeat 80%R 5)) zeros_then_ones))) i j
       = Some 80%R.
Proof.
  apply (@constant_closes_give_flat_paths 0 80 5 zeros_then_ones);
    [lra | lia].
Defined.












(** ** Controls and chart furniture *)

(** X11. Every preset of the dropdown, passed through
    [sync_preset_to_slider], is a position of the slider (within its range
    and on its step grid), and every slider value within the range gives a
    timer period between 10000 ms and 300000 ms; the values the layout starts
    with (preset 60, slider 60, period 60000 ms) are the ones the two
    callbacks compute from each other. *)
Theorem interval_controls_are_consistent :
  Forall (fun option =>
            let v := sync_preset_to_slider (snd option) in
            (slider_min interval_slider <= v <= slider_max interval_slider)%Z
            /\ ((v - slider_min interval_slider)
                mod slider_step interval_slider = 0)%Z)
    preset_dropdown_options
  /\ (forall seconds : Z,
         (slider_min interval_slider <= seconds
          <= slider_max interval_slider)%Z ->
         (10000 <= update_interval seconds <= 300000)%Z)
  /\ In preset_dropdown_value (map snd preset_dropdown_options)
  /\ sync_preset_to_slider preset_dropdown_value
     = slider_value interval_slider
  /\ update_interval (slider_value interval_slider)
     = interval_component_interval.
Proof.
  split; [| split; [| split; [| split]]].
  - repeat constructor; cbn; lia.
  - intros seconds. unfold update_interval. cbn. lia.
  - cbn. auto.
  - reflexivity.
  - reflexivity.
Qed.

Lemma interval_controls_are_consistent_witness :
  (10000 <= update_interval 120 <= 300000)%Z.
Proof.
  destruct interval_controls_are_consistent as (_ & H & _).
  apply H. cbn. lia.
Defined.

(** X12. Every chart of a tick over a non-empty frame has the same
    furniture: ten lines named Path 1 to Path 10, each over the abscissae
    0..29, one green reference line LONG KO at 60.00 followed by one red
    reference line SHORT KO at 97.14, and the title of the source. *)
Theorem simulation_chart_furniture (n : Z) (hist : list R) (P0 : R)
        (g : rng) :
  let chart :=
    snd (fst (update_live_price n wes_label (History (hist ++ [P0])) g)) in
  map trace_name (data chart)
  = [ "Path 1"; "Path 2"; "Path 3"; "Path 4"; "Path 5";
      "Path 6"; "Path 7"; "Path 8"; "Path 9"; "Path 10" ]%string
  /\ Forall (fun t => trace_x t = map Z.of_nat (seq 0 30)) (data chart)
  /\ hlines chart
     = [ {| hline_y := 60.00; hline_color := "green";
            annotation_text := "LONG KO" |};
         {| hline_y := 97.14; hline_color := "red";
            annotation_text := "SHORT KO" |} ]
  /\ layout_title chart = Some "📉 Simulated 30-Day Price Paths"%string.
Proof.
  intros chart. subst chart.
  destruct (tick_rendered_last n hist P0 g) as (sp & g' & Hrun & _ & _).
  rewrite Hrun. cbn [fst snd].
  split; [| split; [| split]].
  - rewrite sim_fig_data. reflexivity.
  - rewrite sim_fig_data. apply Forall_map, Forall_forall.
    intros j _. reflexivity.
  - reflexivity.
  - reflexivity.
Qed.


